(** * locustfile.py: the [ApiUser] load-test definition

    The repository is one user definition for a load-generation engine:

<<
    class ApiUser(HttpUser):
        host = "https://xen-global-system-895330382127.europe-west1.run.app"
        wait_time = between(1, 5)

        @task
        def get_endpoint(self):
            self.client.get("/infrastructure-info")
>>

    The class body is embedded in [Module ApiUser].  Everything the class
    body calls into (the HTTP client, the wait policy, the task registry and
    the task loop) belongs to the engine; [Module Locust] gives those parts
    the behaviour the specification describes.  The remote server, the
    random source and the scheduler are oracles of the environment, so every
    theorem holds for all of their behaviours. *)

From Stdlib Require Import ZArith QArith Qpower Lqa List Ascii String Lia.
From stdpp Require Import base option list strings gmap.
Import ListNotations.

Local Open Scope string_scope.
Local Open Scope list_scope.

(** ** What travels on the wire *)

Module Http.

Inductive Method := GET | OPTIONS | HEAD | POST | PUT | PATCH | DELETE.

(** Keyword arguments a caller may hand to a client call; a call that
    passes none is [no_kwargs]. *)
Record Kwargs := {
  kw_params  : option (list (string * string));
  kw_data    : option string;
  kw_headers : option (list (string * string))
}.

Definition no_kwargs : Kwargs :=
  {| kw_params := None; kw_data := None; kw_headers := None |}.

(** A request as it leaves the client.  [headers] holds what the caller
    added; the engine's default headers are not listed. *)
Record Request := {
  method  : Method;
  url     : string;
  params  : list (string * string);
  data    : option string;
  headers : list (string * string)
}.

Record Response := {
  status_code : Z;
  text        : string
}.

Inductive NetError :=
| ConnectionRefused
| Timeout
| Unreachable (detail : string).

(** What one exchange with the remote side yields. *)
Inductive Outcome :=
| Responded (r : Response)
| Failed (e : NetError).

(** The part of a URL after the first question mark, if any. *)
Fixpoint query_of (u : string) : option string :=
  match u with
  | EmptyString => None
  | String c rest =>
      if Ascii.eqb c "?"%char then Some rest else query_of rest
  end.

End Http.

(** ** Python objects, exceptions and effects *)

Module Py.
Import Http.

(** A reference to an object on the heap. *)
Definition ref := nat.

Inductive Exn :=
| RequestException (e : NetError)
| AttributeError (attr : string).

Inductive Result (A : Type) :=
| Ok (a : A)
| Exc (e : Exn).
Arguments Ok {A} a.
Arguments Exc {A} e.

(** Modelled from the spec: the wait policy constructor [between] is
    missing from the sources.  A policy is the "random delay between two
    bounds"; the closure [between a b] evaluates to is kept first-order
    here and is run by [Locust.sample]. *)
Inductive WaitTime :=
| between (min_wait max_wait : Z).

(** Modelled from the spec: the client class is missing from the sources;
    all that a task needs of "an HTTP client accessible from within a task"
    is the base URL it is bound to. *)
Record HttpSession := { base_url : string }.

(** Modelled from the spec: the base class of user definitions is missing
    from the sources.  A session has the "target host" and the wait policy
    of its definition, and the client the task reaches as [self.client]. *)
Record User := {
  host      : string;
  wait_time : WaitTime;
  client    : HttpSession
}.

(** Everything observable from outside the process, in order: a request
    leaving, the outcome of the exchange as it came back and as the engine
    recorded it, a failure that escaped a task and reached the engine's
    failure channel, a pause of [d] seconds. *)
Inductive Event :=
| Sent (r : Request)
| Reported (o : Outcome)
| UserError (e : Exn)
| Slept (d : Q).

Record World := {
  heap  : gmap nat User;
  trace : list Event;
  draws : nat;
  files : gmap string string
}.

(** The oracles, none of them code of the repository.  The remote server
    answers a request knowing the whole history; the random source yields
    raw bits per draw; the scheduler picks a task index knowing the
    history; [placeholder] says what the client hands its caller after a
    failed exchange: a stand-in response, or nothing, in which case the
    failure is raised. *)
Record Env := {
  server      : list Event -> Request -> Outcome;
  entropy     : nat -> Z;
  pick        : list Event -> nat;
  placeholder : NetError -> option Response
}.

Definition M (A : Type) : Type := Env -> World -> Result A * World.

Definition ret {A} (a : A) : M A := fun _ w => (Ok a, w).

Definition raise {A} (e : Exn) : M A := fun _ w => (Exc e, w).

Definition bind {A B} (m : M A) (k : A -> M B) : M B :=
  fun env w =>
    match m env w with
    | (Ok a, w') => k a env w'
    | (Exc e, w') => (Exc e, w')
    end.

#[export] Instance M_ret : MRet M := @ret.
#[export] Instance M_bind : MBind M := fun A B k m => bind m k.

Definition try_except {A} (m : M A) (handler : Exn -> M A) : M A :=
  fun env w =>
    match m env w with
    | (Ok a, w') => (Ok a, w')
    | (Exc e, w') => handler e env w'
    end.

Definition log (ev : Event) (w : World) : World :=
  {| heap := heap w; trace := trace w ++ [ev];
     draws := draws w; files := files w |}.

Definition emit (ev : Event) : M unit := fun _ w => (Ok tt, log ev w).

(** [self.attr]: an attribute read through a reference. *)
Definition getattr {A} (self : ref) (attr : User -> A) (name : string) : M A :=
  fun _ w =>
    match heap w !! self with
    | Some u => (Ok (attr u), w)
    | None => (Exc (AttributeError name), w)
    end.

End Py.


(** ** The load-generation engine *)

Module Locust.
Import Http Py.

(** *** HTTP client *)

(** Modelled from the spec: the answer of the remote side is not code of
    the repository ("any HTTP response", "connection refused, timeout,
    non-2xx status"); it is whatever the server oracle says, given
    everything that happened so far. *)
Definition exchange (req : Request) : M Outcome :=
  fun env w => (Ok (server env (trace w) req), w).

(** Modelled from the spec: how the client ends a call whose exchange
    failed is missing from the sources.  The failure "surfaces as a
    framework-level recorded failure"; beyond that record the caller gets
    the engine's stand-in response if it has one, and the failure as an
    exception otherwise. *)
Definition surface (e : NetError) : M Response :=
  fun env w =>
    match placeholder env e with
    | Some r => (Ok r, w)
    | None => (Exc (RequestException e), w)
    end.

(** Modelled from the spec: the engine's HTTP client, "an HTTP client
    accessible from within a task", is missing from the sources.  A call
    "sends an HTTP GET to <host>/infrastructure-info": the target is the
    session's base URL followed by the path given by the caller; body,
    query parameters and extra headers are those of the keyword arguments.
    "The external engine records" what came back, whatever it is. *)
Definition request (c : HttpSession) (m : Method) (path : string)
    (kw : Kwargs) : M Response :=
  let req := {| method := m;
                url := base_url c ++ path;
                params := default [] (kw_params kw);
                data := kw_data kw;
                headers := default [] (kw_headers kw) |} in
  emit (Sent req);;
  o ← exchange req;
  emit (Reported o);;
  match o with
  | Responded r => mret r
  | Failed e => surface e
  end.

(** Modelled from the spec: [client.get] is missing from the sources; it
    is the client call with the method fixed to GET. *)
Definition get (c : HttpSession) (path : string) (kw : Kwargs) : M Response :=
  request c GET path kw.

(** *** Wait policy *)

(** Number of equally likely values of one unit draw. *)
Definition resolution : positive := 9007199254740992.

(** Modelled from the spec: the random source behind "drawn uniformly at
    random" is missing from the sources.  One draw consumes one value of
    the entropy oracle and yields a fraction [k / resolution] with
    [0 <= k < resolution], every [k] being equally likely. *)
Definition random : M Q :=
  fun env w =>
    (Ok (Qmake (entropy env (draws w) mod Zpos resolution) resolution),
     {| heap := heap w; trace := trace w;
        draws := S (draws w); files := files w |}).

(** Modelled from the spec: what a policy made by [between] does when it
    is called is missing from the sources; it is a "random delay between
    two bounds, uniformly distributed".  Sampling stretches one fresh unit
    draw over the interval from [min_wait] to [max_wait], in exact
    rational arithmetic. *)
Definition sample (wt : WaitTime) : M Q :=
  match wt with
  | between min_wait max_wait =>
      u ← random;
      mret (inject_Z min_wait + u * inject_Z (max_wait - min_wait))%Q
  end.

(** *** User definitions and task registration *)

(** What a class body may bind a name to. *)
Inductive Member :=
| Str (s : string)
| Wait (wt : WaitTime)
| Def (f : ref -> M unit) (locust_task_weight : option nat).

(** Modelled from the spec: the decorator [task] is missing from the
    sources; "the engine recognizes decorated methods as tasks". *)
Definition task (f : ref -> M unit) : Member := Def f (Some 1).

(** A class body: its bindings in the order they are written. *)
Definition Class := list (string * Member).

Record Task := { task_name : string; task_body : ref -> M unit }.

(** Modelled from the spec: task discovery ("a task-registration
    mechanism") is missing from the sources; the tasks of a user
    definition are its decorated methods, each as often as its weight. *)
Definition tasks (cls : Class) : list Task :=
  flat_map
    (fun b : string * Member =>
       match snd b with
       | Def f (Some weight) =>
           repeat {| task_name := fst b; task_body := f |} weight
       | _ => []
       end)
    cls.

Fixpoint class_attr (cls : Class) (name : string) : option Member :=
  match cls with
  | [] => None
  | (n, m) :: rest =>
      match class_attr rest name with
      | Some m' => Some m'
      | None => if String.eqb n name then Some m else None
      end
  end.

(** Modelled from the spec: session construction is missing from the
    sources.  "Input: none at construction beyond static configuration
    (host string, wait bounds)": the session takes its host from the
    run's configuration when one is given and from the class otherwise,
    its wait policy from the class, and gets a client bound to that
    host. *)
Definition new_user (cls : Class) (configured_host : option string)
    : option User :=
  match class_attr cls "host", class_attr cls "wait_time" with
  | Some (Str class_host), Some (Wait wt) =>
      let h := default class_host configured_host in
      Some {| host := h; wait_time := wt; client := {| base_url := h |} |}
  | _, _ => None
  end.

(** *** Task loop *)

(** Modelled from the spec: task selection is missing from the sources; a
    task is "selected repeatedly by the driving engine", here by the
    scheduler oracle, among the registered tasks. *)
Definition get_next_task (ts : list Task) : M (option Task) :=
  fun env w => (Ok (ts !! (pick env (trace w) mod length ts)%nat), w).

(** Modelled from the spec: a failure that escapes a task "reports
    failure via the external engine's failure channel; the user session
    continues to its next wait/task cycle". *)
Definition execute_task (self : ref) (t : Task) : M unit :=
  try_except (task_body t self) (fun e => emit (UserError e)).

(** Modelled from the spec: "after each task completes, the simulated
    user pauses for a duration drawn" from its wait policy. *)
Definition wait (self : ref) : M unit :=
  wt ← getattr self wait_time "wait_time";
  d ← sample wt;
  emit (Slept d).

(** Modelled from the spec: the task loop of the engine is missing from
    the sources; one cycle selects a task, executes it, then waits. *)
Definition cycle (cls : Class) (self : ref) : M unit :=
  t ← get_next_task (tasks cls);
  match t with
  | Some t => execute_task self t
  | None => mret tt
  end;;
  wait self.

(** Modelled from the spec: the session loops through cycles "until the
    engine terminates the session", here after [n] cycles. *)
Fixpoint run (cls : Class) (self : ref) (n : nat) : M unit :=
  match n with
  | O => mret tt
  | S n' => cycle cls self;; run cls self n'
  end.

(** The requests on the wire and the pauses, read off a trace. *)
Definition requests_of (tr : list Event) : list Request :=
  flat_map (fun ev => match ev with Sent r => [r] | _ => [] end) tr.

Definition pauses_of (tr : list Event) : list Q :=
  flat_map (fun ev => match ev with Slept d => [d] | _ => [] end) tr.

End Locust.

(** ** The user definition of the repository *)

Module ApiUser.
Import Http Py Locust.

Definition host : string :=
  "https://xen-global-system-895330382127.europe-west1.run.app".

Definition wait_time : WaitTime := between 1 5.

Definition get_endpoint (self : ref) : M unit :=
  c ← getattr self client "client";
  get c "/infrastructure-info" no_kwargs;;
  mret tt.

(** The class body, binding by binding. *)
Definition cls : Class :=
  [ ("host", Str host);
    ("wait_time", Wait wait_time);
    ("get_endpoint", task get_endpoint) ].

End ApiUser.

(** ** Vocabulary of the statements *)

Module Expect.
Import Http Py Locust.

(** The request a session bound to base URL [h] is expected to emit. *)
Definition request_to (h : string) : Request :=
  {| method := GET; url := h ++ "/infrastructure-info";
     params := []; data := None; headers := [] |}.

(** What the remote side answers to the expected request in [w]. *)
Definition outcome_at (env : Env) (h : string) (w : World) : Outcome :=
  server env (trace w ++ [Sent (request_to h)]) (request_to h).

(** What a client call hands its caller, given what the exchange yielded. *)
Definition handed (env : Env) (o : Outcome) : Result Response :=
  match o with
  | Responded r => Ok r
  | Failed e =>
      match placeholder env e with
      | Some r => Ok r
      | None => Exc (RequestException e)
      end
  end.

(** The same with the value dropped: how a call that discards the response
    ends. *)
Definition ending (env : Env) (o : Outcome) : Result unit :=
  match handed env o with
  | Ok _ => Ok tt
  | Exc e => Exc e
  end.

(** What reaches the engine's failure channel when a task ends this way. *)
Definition escaped (res : Result unit) : list Event :=
  match res with
  | Ok _ => []
  | Exc e => [UserError e]
  end.

(** The unit draw number [i] of an environment, and the delay the policy
    of the class makes of a unit draw. *)
Definition unit_draw (env : Env) (i : nat) : Q :=
  Qmake (entropy env i mod Zpos resolution) resolution.

Definition delay_of (u : Q) : Q := (1 + u * 4)%Q.

(** Events of an exchange with the remote side. *)
Definition is_network_io (ev : Event) : bool :=
  match ev with
  | Sent _ | Reported _ => true
  | UserError _ | Slept _ => false
  end.

(** The world after one more draw. *)
Definition drawn (w : World) : World :=
  {| heap := heap w; trace := trace w;
     draws := S (draws w); files := files w |}.

(** The world after the task of a session bound to [h], and after a whole
    cycle of it. *)
Definition after_task (env : Env) (h : string) (w : World) : World :=
  log (Reported (outcome_at env h w)) (log (Sent (request_to h)) w).

Definition after_cycle (env : Env) (h : string) (w : World) : World :=
  let w1 := after_task env h w in
  let w2 := fold_left (fun acc ev => log ev acc)
              (escaped (ending env (outcome_at env h w))) w1 in
  log (Slept (delay_of (unit_draw env (draws w)))) (drawn w2).

Fixpoint after_cycles (env : Env) (h : string) (n : nat) (w : World)
    : World :=
  match n with
  | O => w
  | S n' => after_cycles env h n' (after_cycle env h w)
  end.

End Expect.

(** ** Concrete runs *)

Module Scenario.
Import Http Py Locust.

(** A remote side that answers the first request of a history with 200,
    a later one with 503, and is unreachable from then on. *)
Definition flaky (history : list Event) (_ : Request) : Outcome :=
  match length history with
  | 1%nat => Responded {| status_code := 200; text := "ok" |}
  | 4%nat => Responded {| status_code := 503; text := "busy" |}
  | _ => Failed ConnectionRefused
  end.

Definition down (_ : list Event) (_ : Request) : Outcome :=
  Failed Timeout.

(** A remote side that always answers, with a fixed status and body. *)
Definition steady (status : Z) (body : string)
    (_ : list Event) (_ : Request) : Outcome :=
  Responded {| status_code := status; text := body |}.

Definition env_steady (status : Z) (body : string) : Env :=
  {| server := steady status body;
     entropy := fun i => Z.of_nat (i * i);
     pick := fun _ => 0%nat;
     placeholder := fun _ => None |}.

(** An engine whose client raises after a failed exchange. *)
Definition env_flaky : Env :=
  {| server := flaky;
     entropy := fun i => (Z.of_nat i * 6004799503160661 + 17)%Z;
     pick := fun history => length history;
     placeholder := fun _ => None |}.

(** An engine whose client raises on a dead remote side. *)
Definition env_down : Env :=
  {| server := down;
     entropy := fun i => (- Z.of_nat i - 1)%Z;
     pick := fun _ => 3%nat;
     placeholder := fun _ => None |}.

(** An engine whose client answers a failed exchange with a stand-in
    response of status 0 instead of raising. *)
Definition env_quiet : Env :=
  {| server := down;
     entropy := fun _ => 4503599627370496%Z;
     pick := fun _ => 0%nat;
     placeholder := fun _ => Some {| status_code := 0; text := "" |} |}.

Definition example_test : option string := Some "https://example.test".

Definition unreachable_test : option string :=
  Some "https://unreachable.test".

(** The session the engine makes of the class when no host is configured. *)
Definition default_session : User :=
  {| host := ApiUser.host; wait_time := ApiUser.wait_time;
     client := {| base_url := ApiUser.host |} |}.

(** A fresh process holding one session of the class at reference 7. *)
Definition world (configured_host : option string) : World :=
  {| heap := match new_user ApiUser.cls configured_host with
             | Some u => {[ 7%nat := u ]}
             | None => ∅
             end;
     trace := [];
     draws := 0;
     files := ∅ |}.

(** A process that has been running for a while: two sessions of the
    class, at references 2 and 7, some history and a file on disk. *)
Definition busy_world (configured_host : option string) : World :=
  {| heap := match new_user ApiUser.cls configured_host with
             | Some u => {[ 2%nat := u; 7%nat := u ]}
             | None => ∅
             end;
     trace := [Slept (3 # 2);
               Sent {| method := GET; url := "https://elsewhere.test/";
                       params := []; data := None; headers := [] |};
               Reported (Failed (Unreachable "no route"))];
     draws := 5;
     files := {[ "stats.csv" := "name,count" ]} |}.

End Scenario.

(** ** Several sessions, and measures of a trace *)

Module Fleet.
Import Http Py Locust.

(** Modelled from the spec: how the engine orders the sessions it runs is
    missing from the sources; it "spawns and schedules" them, "each
    independently looping through wait/task cycles".  Here the sessions
    share one process and take their cycles one at a time, in the order
    of [turns], which is arbitrary. *)
Fixpoint run_turns (cls : Class) (turns : list ref) : M unit :=
  match turns with
  | [] => mret tt
  | self :: rest => cycle cls self;; run_turns cls rest
  end.

(** What the session at [self] is expected to put on the wire in one
    cycle: one request to its own host. *)
Definition turn_request (w : World) (self : ref) : list Request :=
  match heap w !! self with
  | Some u => [ {| method := GET;
                   url := host u ++ "/infrastructure-info";
                   params := []; data := None; headers := [] |} ]
  | None => []
  end.

(** A process with two sessions of the class bound to different hosts. *)
Definition two_hosts : World :=
  {| heap := match new_user ApiUser.cls None,
                   new_user ApiUser.cls Scenario.example_test with
             | Some u, Some v => {[ 1%nat := u; 4%nat := v ]}
             | _, _ => ∅
             end;
     trace := [];
     draws := 0;
     files := ∅ |}.

End Fleet.

Module Measure.
Import Http Py Locust.

(** The events a step added to the trace it started from. *)
Definition added (before after : list Event) : list Event :=
  drop (length before) after.

(** Total duration of a list of pauses, in seconds. *)
Definition total (ds : list Q) : Q := fold_right Qplus 0%Q ds.

(** Pacing of a stretch of trace.  [owed] says that a request has gone
    out and no pause of at least one second has followed it yet.  The
    result is [None] as soon as a request goes out while a pause is owed,
    and otherwise says whether a pause is owed at the end. *)
Fixpoint pace (owed : bool) (tr : list Event) : option bool :=
  match tr with
  | [] => Some owed
  | Sent _ :: rest => if owed then None else pace true rest
  | Slept d :: rest => pace (if Qle_bool 1 d then false else owed) rest
  | _ :: rest => pace owed rest
  end.

End Measure.

(** ** Chance *)

Module Chance.
Import Http Py Locust.

(** Sum of [f k] over the raw values [0 <= k < N]. *)
Fixpoint sum_below (N : nat) (f : Z -> nat) : nat :=
  match N with
  | O => O
  | S N' => (sum_below N' f + f (Z.of_nat N'))%nat
  end.

(** How many raw values [0 <= k < N] satisfy [P]. *)
Definition count_below (N : nat) (P : Z -> bool) : nat :=
  sum_below N (fun k => if P k then 1%nat else 0%nat).

(** How many vectors of [n] raw values, each below [N], satisfy [E]. *)
Fixpoint count_vectors (N n : nat) (E : list Z -> bool) : nat :=
  match n with
  | O => if E [] then 1%nat else 0%nat
  | S n' => sum_below N (fun k => count_vectors N n' (fun ks => E (k :: ks)))
  end.

(** Modelled from the spec: the law of the random source is missing from
    the sources.  Delays are "drawn uniformly at random", "independently
    each time": of the [resolution ^ n] vectors of raw values that [n]
    successive draws can yield, each is as likely as any other.  The
    chance of an event on [n] draws is the share of the vectors in it. *)
Definition chance (n : nat) (E : list Z -> bool) : Q :=
  (inject_Z (Z.of_nat (count_vectors (Pos.to_nat resolution) n E))
   / inject_Z (Zpos resolution) ^ Z.of_nat n)%Q.

(** The environment in which the draws numbered [first], [first + 1], ...
    yield the raw values [ks], and which is [env] in everything else. *)
Definition redraw (env : Env) (first : nat) (ks : list Z) : Env :=
  {| server := server env;
     entropy := fun i =>
                  if (first <=? i)%nat
                  then nth (i - first) ks (entropy env i)
                  else entropy env i;
     pick := pick env;
     placeholder := placeholder env |}.

(** Whether every duration stays within its own threshold. *)
Fixpoint all_le (ds xs : list Q) : bool :=
  match ds, xs with
  | [], [] => true
  | d :: ds', x :: xs' => Qle_bool d x && all_le ds' xs'
  | _, _ => false
  end.

(** An event that asks something of each coordinate on its own. *)
Fixpoint each (Ps : list (Z -> bool)) (ks : list Z) : bool :=
  match Ps, ks with
  | [], [] => true
  | P :: Ps', k :: ks' => P k && each Ps' ks'
  | _, _ => false
  end.

(** The distribution function of the uniform law on the interval from 1
    to 5, and the product of a list of chances. *)
Definition uniform_cdf (x : Q) : Q := ((x - 1) / 4)%Q.

Definition product (ps : list Q) : Q := fold_right Qmult 1%Q ps.

End Chance.

Import Http Py Locust Expect.

(** ** Equations of the embedded code *)

Section Equations.
Variable env : Env.

Lemma bind_ok {A B} (m : M A) (k : A -> M B) w a w' :
  m env w = (Ok a, w') -> (m ≫= k) env w = k a env w'.
Proof. intros H. unfold mbind, M_bind, bind. now rewrite H. Qed.

Lemma bind_exc {A B} (m : M A) (k : A -> M B) w e w' :
  m env w = (Exc e, w') -> (m ≫= k) env w = (Exc e, w').
Proof. intros H. unfold mbind, M_bind, bind. now rewrite H. Qed.

Lemma request_run c m path kw w :
  let req := {| method := m; url := base_url c ++ path;
                params := default [] (kw_params kw);
                data := kw_data kw;
                headers := default [] (kw_headers kw) |} in
  let o := server env (trace w ++ [Sent req]) req in
  request c m path kw env w
  = (handed env o, log (Reported o) (log (Sent req) w)).
Proof.
  intros req o. unfold request. fold req.
  unfold mbind, M_bind, bind, emit, exchange. cbn [trace log].
  fold o. destruct o as [r|e]; [reflexivity|].
  unfold surface, handed. destruct (placeholder env e); reflexivity.
Qed.

Lemma get_run h w :
  get {| base_url := h |} "/infrastructure-info" no_kwargs env w
  = (handed env (outcome_at env h w), after_task env h w).
Proof. unfold get. now rewrite request_run. Qed.

Lemma get_endpoint_run self w u :
  heap w !! self = Some u ->
  let h := base_url (client u) in
  ApiUser.get_endpoint self env w
  = (ending env (outcome_at env h w), after_task env h w).
Proof.
  intros Hu h. unfold ApiUser.get_endpoint.
  rewrite (bind_ok _ _ w (client u) w).
  2:{ unfold getattr. now rewrite Hu. }
  unfold mbind at 1. unfold M_bind, bind.
  replace (client u) with {| base_url := h |} by (subst h; now destruct (client u)).
  rewrite get_run. unfold ending.
  destruct (handed env (outcome_at env h w)); reflexivity.
Qed.

Lemma get_endpoint_dangling self w :
  heap w !! self = None ->
  ApiUser.get_endpoint self env w = (Exc (AttributeError "client"), w).
Proof.
  intros Hu. unfold ApiUser.get_endpoint.
  apply bind_exc. unfold getattr. now rewrite Hu.
Qed.

Lemma sample_run w :
  sample ApiUser.wait_time env w
  = (Ok (delay_of (unit_draw env (draws w))), drawn w).
Proof. reflexivity. Qed.

Lemma wait_run self w u :
  heap w !! self = Some u ->
  wait_time u = ApiUser.wait_time ->
  wait self env w
  = (Ok tt, log (Slept (delay_of (unit_draw env (draws w)))) (drawn w)).
Proof.
  intros Hu Hwt. unfold wait.
  rewrite (bind_ok _ _ w (wait_time u) w).
  2:{ unfold getattr. now rewrite Hu. }
  rewrite Hwt.
  rewrite (bind_ok _ _ w _ (drawn w) (sample_run w)).
  reflexivity.
Qed.

End Equations.

Lemma new_user_cls cfg :
  new_user ApiUser.cls cfg
  = Some {| host := default ApiUser.host cfg;
            wait_time := between 1 5;
            client := {| base_url := default ApiUser.host cfg |} |}.
Proof. reflexivity. Qed.

Lemma tasks_cls :
  tasks ApiUser.cls
  = [ {| task_name := "get_endpoint"; task_body := ApiUser.get_endpoint |} ].
Proof. reflexivity. Qed.

Lemma unit_draw_range env i : (0 <= unit_draw env i)%Q /\ (unit_draw env i < 1)%Q.
Proof.
  unfold unit_draw, Qle, Qlt. cbn [Qnum Qden].
  pose proof (Z.mod_pos_bound (entropy env i) (Zpos resolution) eq_refl).
  lia.
Qed.

Lemma delay_of_range u : (0 <= u)%Q -> (u < 1)%Q -> (1 <= delay_of u <= 5)%Q.
Proof. unfold delay_of. intros; split; lra. Qed.

(** *** Frame of the logging steps *)

Lemma escaped_heap res w :
  heap (fold_left (fun acc ev => log ev acc) (escaped res) w) = heap w.
Proof. destruct res; reflexivity. Qed.

Lemma escaped_draws res w :
  draws (fold_left (fun acc ev => log ev acc) (escaped res) w) = draws w.
Proof. destruct res; reflexivity. Qed.

Lemma escaped_files res w :
  files (fold_left (fun acc ev => log ev acc) (escaped res) w) = files w.
Proof. destruct res; reflexivity. Qed.

Lemma escaped_trace res w :
  trace (fold_left (fun acc ev => log ev acc) (escaped res) w)
  = trace w ++ escaped res.
Proof. destruct res; cbn; [now rewrite app_nil_r | reflexivity]. Qed.

Lemma after_task_trace env h w :
  trace (after_task env h w)
  = trace w ++ [Sent (request_to h); Reported (outcome_at env h w)].
Proof. unfold after_task. cbn [log trace]. now rewrite <- app_assoc. Qed.

(** *** One cycle and many *)

Lemma execute_get_endpoint env self w u :
  heap w !! self = Some u ->
  let h := base_url (client u) in
  execute_task self
    {| task_name := "get_endpoint"; task_body := ApiUser.get_endpoint |} env w
  = (Ok tt,
     fold_left (fun acc ev => log ev acc)
       (escaped (ending env (outcome_at env h w))) (after_task env h w)).
Proof.
  intros Hu h. unfold execute_task, try_except. cbn [task_body].
  rewrite (get_endpoint_run env self w u Hu). fold h.
  destruct (ending env (outcome_at env h w)) as [[]|e]; reflexivity.
Qed.

Lemma cycle_run env self w cfg :
  heap w !! self = new_user ApiUser.cls cfg ->
  cycle ApiUser.cls self env w
  = (Ok tt, after_cycle env (default ApiUser.host cfg) w).
Proof.
  rewrite new_user_cls. intros Hu. set (h := default ApiUser.host cfg) in *.
  unfold cycle. rewrite tasks_cls.
  set (t := {| task_name := "get_endpoint";
               task_body := ApiUser.get_endpoint |}).
  rewrite (bind_ok env _ _ w (Some t) w).
  2:{ unfold get_next_task. cbn [length]. now rewrite Nat.mod_1_r. }
  pose proof (execute_get_endpoint env self w _ Hu) as Hx.
  cbn [client base_url] in Hx. fold t in Hx.
  rewrite (bind_ok env _ _ w tt _ Hx).
  erewrite wait_run.
  - unfold after_cycle. now rewrite escaped_draws.
  - rewrite escaped_heap. exact Hu.
  - reflexivity.
Qed.

Lemma after_cycle_heap env h w : heap (after_cycle env h w) = heap w.
Proof. unfold after_cycle. cbn [log heap drawn]. now rewrite escaped_heap. Qed.

Lemma after_cycle_files env h w : files (after_cycle env h w) = files w.
Proof. unfold after_cycle. cbn [log files drawn]. now rewrite escaped_files. Qed.

Lemma after_cycle_draws env h w : draws (after_cycle env h w) = S (draws w).
Proof. unfold after_cycle. cbn [log draws drawn]. now rewrite escaped_draws. Qed.

Lemma after_cycle_trace env h w :
  trace (after_cycle env h w)
  = trace w
    ++ [Sent (request_to h); Reported (outcome_at env h w)]
    ++ escaped (ending env (outcome_at env h w))
    ++ [Slept (delay_of (unit_draw env (draws w)))].
Proof.
  unfold after_cycle. cbn [log trace drawn].
  rewrite escaped_trace, after_task_trace.
  now rewrite <- !app_assoc.
Qed.

Lemma after_cycles_heap env h n : forall w, heap (after_cycles env h n w) = heap w.
Proof.
  induction n as [|n IH]; intros w; cbn [after_cycles]; [reflexivity|].
  now rewrite IH, after_cycle_heap.
Qed.

Lemma after_cycles_files env h n : forall w, files (after_cycles env h n w) = files w.
Proof.
  induction n as [|n IH]; intros w; cbn [after_cycles]; [reflexivity|].
  now rewrite IH, after_cycle_files.
Qed.

Lemma run_run env self cfg n :
  forall w,
    heap w !! self = new_user ApiUser.cls cfg ->
    run ApiUser.cls self n env w
    = (Ok tt, after_cycles env (default ApiUser.host cfg) n w).
Proof.
  induction n as [|n IH]; intros w Hu; [reflexivity|].
  cbn [run after_cycles].
  rewrite (bind_ok env _ _ w tt _ (cycle_run env self w cfg Hu)).
  apply IH. now rewrite after_cycle_heap.
Qed.

(** *** Reading requests and pauses off a trace *)

Lemma requests_of_app tr1 tr2 :
  requests_of (tr1 ++ tr2) = requests_of tr1 ++ requests_of tr2.
Proof. unfold requests_of. apply flat_map_app. Qed.

Lemma pauses_of_app tr1 tr2 :
  pauses_of (tr1 ++ tr2) = pauses_of tr1 ++ pauses_of tr2.
Proof. unfold pauses_of. apply flat_map_app. Qed.

Lemma requests_of_escaped res : requests_of (escaped res) = [].
Proof. destruct res; reflexivity. Qed.

Lemma pauses_of_escaped res : pauses_of (escaped res) = [].
Proof. destruct res; reflexivity. Qed.

Lemma after_task_requests env h w :
  requests_of (trace (after_task env h w))
  = requests_of (trace w) ++ [request_to h].
Proof. now rewrite after_task_trace, requests_of_app. Qed.

Lemma after_cycle_requests env h w :
  requests_of (trace (after_cycle env h w))
  = requests_of (trace w) ++ [request_to h].
Proof.
  rewrite after_cycle_trace, !requests_of_app, requests_of_escaped.
  reflexivity.
Qed.

Lemma after_cycle_pauses env h w :
  pauses_of (trace (after_cycle env h w))
  = pauses_of (trace w) ++ [delay_of (unit_draw env (draws w))].
Proof.
  rewrite after_cycle_trace, !pauses_of_app, pauses_of_escaped.
  reflexivity.
Qed.

Lemma after_cycles_requests env h n :
  forall w,
    requests_of (trace (after_cycles env h n w))
    = requests_of (trace w) ++ repeat (request_to h) n.
Proof.
  induction n as [|n IH]; intros w; cbn [after_cycles repeat].
  - now rewrite app_nil_r.
  - rewrite IH, after_cycle_requests, <- app_assoc. reflexivity.
Qed.

Lemma after_cycles_pauses env h n :
  forall w,
    pauses_of (trace (after_cycles env h n w))
    = pauses_of (trace w)
      ++ map (fun j => delay_of (unit_draw env j)) (seq (draws w) n).
Proof.
  induction n as [|n IH]; intros w; cbn [after_cycles seq map].
  - now rewrite app_nil_r.
  - rewrite IH, after_cycle_pauses, after_cycle_draws, <- app_assoc.
    reflexivity.
Qed.

Lemma query_of_app a b :
  query_of a = None -> query_of (a ++ b) = query_of b.
Proof.
  induction a as [|c a IH]; simpl; [reflexivity|].
  destruct (Ascii.eqb c "?"); [discriminate | exact IH].
Qed.

(** *** The code on concrete inputs *)

Example run_three_cycles :
  let r := run ApiUser.cls 7%nat 3 Scenario.env_flaky
             (Scenario.world (Some "https://example.test")) in
  let get := {| method := GET;
                url := "https://example.test/infrastructure-info";
                params := []; data := None; headers := [] |} in
  fst r = Ok tt
  /\ trace (snd r)
     = [ Sent get;
         Reported (Responded {| status_code := 200; text := "ok" |});
         Slept (9007199254741060 # 9007199254740992);
         Sent get;
         Reported (Responded {| status_code := 503; text := "busy" |});
         Slept (33026397267383704 # 9007199254740992);
         Sent get;
         Reported (Failed ConnectionRefused);
         UserError (RequestException ConnectionRefused);
         Slept (21016798261062380 # 9007199254740992) ].
Proof. split; reflexivity. Qed.

Example get_endpoint_timeout_raised :
  let r := ApiUser.get_endpoint 7%nat Scenario.env_down (Scenario.world None) in
  fst r = Exc (RequestException Timeout)
  /\ trace (snd r)
     = [ Sent (request_to ApiUser.host); Reported (Failed Timeout) ].
Proof. split; reflexivity. Qed.

Example get_endpoint_timeout_stand_in :
  let r := ApiUser.get_endpoint 7%nat Scenario.env_quiet (Scenario.world None) in
  fst r = Ok tt
  /\ trace (snd r)
     = [ Sent (request_to ApiUser.host); Reported (Failed Timeout) ].
Proof. split; reflexivity. Qed.

Example get_endpoint_without_session :
  ApiUser.get_endpoint 9%nat Scenario.env_quiet (Scenario.world None)
  = (Exc (AttributeError "client"), Scenario.world None).
Proof. reflexivity. Qed.

Example longest_wait :
  fst (sample ApiUser.wait_time Scenario.env_down (Scenario.world None))
  = Ok (45035996273704956 # 9007199254740992).
Proof. reflexivity. Qed.

(** In a run every pause is in range and is made of the draw that has the
    pause's own number. *)
Lemma run_pauses env cfg self w n :
  heap w !! self = new_user ApiUser.cls cfg ->
  let ds := map (fun j => delay_of (unit_draw env j)) (seq (draws w) n) in
  pauses_of (trace (snd (run ApiUser.cls self n env w)))
  = pauses_of (trace w) ++ ds
  /\ Forall (fun d => (1 <= d <= 5)%Q) ds.
Proof.
  intros Hu ds. rewrite (run_run env self cfg n w Hu). cbn [snd].
  split; [apply after_cycles_pauses|].
  subst ds. apply List.Forall_forall. intros d Hd.
  apply in_map_iff in Hd as (j & <- & _).
  destruct (unit_draw_range env j). now apply delay_of_range.
Qed.

(** A run leaves the sessions and the files as they were. *)
Lemma run_frame env cfg self w n :
  heap w !! self = new_user ApiUser.cls cfg ->
  let w' := snd (run ApiUser.cls self n env w) in
  heap w' = heap w /\ files w' = files w.
Proof.
  intros Hu w'. subst w'. rewrite (run_run env self cfg n w Hu). cbn [snd].
  split; [apply after_cycles_heap | apply after_cycles_files].
Qed.

(** ** The claims *)

(** C1: at every invocation of [get_endpoint] by a session of the class,
    whatever the environment and the world, exactly one request goes on the
    wire; it is a GET and its target is the configured host followed by
    "/infrastructure-info".  The target depends on the configuration alone,
    and the session is left as it was, so it is the same at every
    invocation. *)
Theorem get_endpoint_target env cfg self w :
  heap w !! self = new_user ApiUser.cls cfg ->
  let w' := snd (ApiUser.get_endpoint self env w) in
  exists r,
    requests_of (trace w') = requests_of (trace w) ++ [r]
    /\ method r = GET
    /\ url r = (default ApiUser.host cfg ++ "/infrastructure-info")%string
    /\ heap w' !! self = new_user ApiUser.cls cfg.
Proof.
  intros Hu w'. pose proof Hu as Hu'. rewrite new_user_cls in Hu'.
  subst w'. rewrite (get_endpoint_run env self w _ Hu').
  cbn [snd client base_url].
  exists (request_to (default ApiUser.host cfg)).
  rewrite after_task_requests. repeat split; auto.
Qed.

Lemma get_endpoint_target_witness :
  heap (Scenario.world Scenario.example_test) !! 7%nat
  = new_user ApiUser.cls Scenario.example_test
  /\ exists r,
       requests_of
         (trace (snd (ApiUser.get_endpoint 7%nat Scenario.env_flaky
                        (Scenario.world Scenario.example_test))))
       = requests_of (trace (Scenario.world Scenario.example_test)) ++ [r]
       /\ method r = GET
       /\ url r = "https://example.test/infrastructure-info"
       /\ heap (snd (ApiUser.get_endpoint 7%nat Scenario.env_flaky
                       (Scenario.world Scenario.example_test))) !! 7%nat
          = new_user ApiUser.cls Scenario.example_test.
Proof.
  split; [reflexivity|].
  exact (get_endpoint_target Scenario.env_flaky Scenario.example_test 7%nat
           (Scenario.world Scenario.example_test) eq_refl).
Defined.

(** C3: the host of the class is the constant
    "https://xen-global-system-895330382127.europe-west1.run.app"; a session
    created without any other configuration carries it, and in a run of any
    number of cycles every request is a GET to that host followed by
    "/infrastructure-info". *)
Theorem host_constant env self w n :
  heap w !! self = new_user ApiUser.cls None ->
  ApiUser.host = "https://xen-global-system-895330382127.europe-west1.run.app"
  /\ host <$> heap w !! self = Some ApiUser.host
  /\ requests_of (trace (snd (run ApiUser.cls self n env w)))
     = requests_of (trace w)
       ++ repeat
            {| method := GET;
               url := "https://xen-global-system-895330382127.europe-west1.run.app/infrastructure-info";
               params := []; data := None; headers := [] |}
            n.
Proof.
  intros Hu. split; [reflexivity|]. split.
  - rewrite Hu, new_user_cls. reflexivity.
  - rewrite (run_run env self None n w Hu). cbn [snd].
    apply after_cycles_requests.
Qed.

Lemma host_constant_witness :
  heap (Scenario.world None) !! 7%nat = new_user ApiUser.cls None
  /\ ApiUser.host
     = "https://xen-global-system-895330382127.europe-west1.run.app"
  /\ host <$> heap (Scenario.world None) !! 7%nat = Some ApiUser.host
  /\ requests_of
       (trace (snd (run ApiUser.cls 7%nat 3 Scenario.env_flaky
                      (Scenario.world None))))
     = requests_of (trace (Scenario.world None))
       ++ repeat
            {| method := GET;
               url := "https://xen-global-system-895330382127.europe-west1.run.app/infrastructure-info";
               params := []; data := None; headers := [] |}
            3.
Proof.
  split; [reflexivity|].
  exact (host_constant Scenario.env_flaky 7%nat (Scenario.world None) 3
           eq_refl).
Defined.

(** C4: [get_endpoint] ends the way its one client call ends and leaves
    the world that call leaves: nothing is checked, caught or sent again.
    Any response, whatever its status, makes it return normally; after a
    failed exchange it returns if the client handed back a stand-in and
    otherwise lets the client's exception through as it is.  Exactly one
    request is sent, and what the engine records is the outcome as the
    remote side gave it.  The sessions are untouched, and the cycle around
    the task ends normally after its wait, whereupon the remaining cycles
    of the run follow. *)
Theorem get_endpoint_passes_through env cfg self w n :
  heap w !! self = new_user ApiUser.cls cfg ->
  let h := default ApiUser.host cfg in
  let o := outcome_at env h w in
  let called :=
    get {| base_url := h |} "/infrastructure-info" no_kwargs env w in
  let done := ApiUser.get_endpoint self env w in
  snd done = snd called
  /\ fst done = match fst called with Ok _ => Ok tt | Exc e => Exc e end
  /\ (forall r, o = Responded r -> fst done = Ok tt)
  /\ (forall e, o = Failed e ->
        fst done = match placeholder env e with
                   | Some _ => Ok tt
                   | None => Exc (RequestException e)
                   end)
  /\ trace (snd done) = trace w ++ [Sent (request_to h); Reported o]
  /\ heap (snd done) = heap w
  /\ exists d w',
       cycle ApiUser.cls self env w = (Ok tt, w')
       /\ trace w'
          = trace w ++ [Sent (request_to h); Reported o]
            ++ match fst done with
               | Ok _ => []
               | Exc e => [UserError e]
               end
            ++ [Slept d]
       /\ heap w' = heap w
       /\ run ApiUser.cls self (S n) env w = run ApiUser.cls self n env w'.
Proof.
  intros Hu h o called done. pose proof Hu as Hu'.
  rewrite new_user_cls in Hu'.
  subst done called. rewrite (get_endpoint_run env self w _ Hu'), get_run.
  cbn [client base_url fst snd]. fold h. fold o.
  split; [reflexivity|].
  split; [reflexivity|].
  split; [intros r ->; reflexivity|].
  split.
  { intros e ->. unfold ending, handed.
    destruct (placeholder env e); reflexivity. }
  split; [apply after_task_trace|].
  split; [reflexivity|].
  exists (delay_of (unit_draw env (draws w))), (after_cycle env h w).
  pose proof (cycle_run env self w cfg Hu) as Hc. fold h in Hc.
  split; [exact Hc|].
  split; [rewrite after_cycle_trace; reflexivity|].
  split; [apply after_cycle_heap|].
  cbn [run]. now rewrite (bind_ok env _ _ w tt _ Hc).
Qed.

Lemma get_endpoint_passes_through_witness :
  heap (Scenario.world Scenario.unreachable_test) !! 7%nat
  = new_user ApiUser.cls Scenario.unreachable_test
  /\ (let env := Scenario.env_down in
      let w := Scenario.world Scenario.unreachable_test in
      let h := "https://unreachable.test" in
      let o := outcome_at env h w in
      let called :=
        get {| base_url := h |} "/infrastructure-info" no_kwargs env w in
      let done := ApiUser.get_endpoint 7%nat env w in
      snd done = snd called
      /\ fst done = match fst called with Ok _ => Ok tt | Exc e => Exc e end
      /\ (forall r, o = Responded r -> fst done = Ok tt)
      /\ (forall e, o = Failed e ->
            fst done = match placeholder env e with
                       | Some _ => Ok tt
                       | None => Exc (RequestException e)
                       end)
      /\ trace (snd done) = trace w ++ [Sent (request_to h); Reported o]
      /\ heap (snd done) = heap w
      /\ exists d w',
           cycle ApiUser.cls 7%nat env w = (Ok tt, w')
           /\ trace w'
              = trace w ++ [Sent (request_to h); Reported o]
                ++ match fst done with
                   | Ok _ => []
                   | Exc e => [UserError e]
                   end
                ++ [Slept d]
           /\ heap w' = heap w
           /\ run ApiUser.cls 7%nat 2 env w = run ApiUser.cls 7%nat 1 env w').
Proof.
  split; [reflexivity|].
  exact (get_endpoint_passes_through Scenario.env_down
           Scenario.unreachable_test 7%nat
           (Scenario.world Scenario.unreachable_test) 1 eq_refl).
Defined.

(** C5: the class registers exactly one task, [get_endpoint]; whichever
    index the scheduler picks, a cycle executes it, and what it puts on the
    wire is one and the same GET, fixed by the configured host alone. *)
Theorem one_task_one_request env cfg self w :
  heap w !! self = new_user ApiUser.cls cfg ->
  tasks ApiUser.cls
  = [ {| task_name := "get_endpoint"; task_body := ApiUser.get_endpoint |} ]
  /\ fst (get_next_task (tasks ApiUser.cls) env w)
     = Ok (Some {| task_name := "get_endpoint";
                   task_body := ApiUser.get_endpoint |})
  /\ requests_of (trace (snd (cycle ApiUser.cls self env w)))
     = requests_of (trace w)
       ++ [ {| method := GET;
               url := default ApiUser.host cfg ++ "/infrastructure-info";
               params := []; data := None; headers := [] |} ].
Proof.
  intros Hu. split; [reflexivity|]. split.
  - rewrite tasks_cls. unfold get_next_task. cbn [fst length].
    now rewrite Nat.mod_1_r.
  - rewrite (cycle_run env self w cfg Hu). cbn [snd].
    apply after_cycle_requests.
Qed.

Lemma one_task_one_request_witness :
  heap (Scenario.busy_world Scenario.example_test) !! 2%nat
  = new_user ApiUser.cls Scenario.example_test
  /\ tasks ApiUser.cls
     = [ {| task_name := "get_endpoint";
            task_body := ApiUser.get_endpoint |} ]
  /\ fst (get_next_task (tasks ApiUser.cls) Scenario.env_down
            (Scenario.busy_world Scenario.example_test))
     = Ok (Some {| task_name := "get_endpoint";
                   task_body := ApiUser.get_endpoint |})
  /\ requests_of
       (trace (snd (cycle ApiUser.cls 2%nat Scenario.env_down
                      (Scenario.busy_world Scenario.example_test))))
     = requests_of (trace (Scenario.busy_world Scenario.example_test))
       ++ [ {| method := GET;
               url := "https://example.test/infrastructure-info";
               params := []; data := None; headers := [] |} ].
Proof.
  split; [reflexivity|].
  exact (one_task_one_request Scenario.env_down Scenario.example_test 2%nat
           (Scenario.busy_world Scenario.example_test) eq_refl).
Defined.

(** C6: one invocation of [get_endpoint] changes nothing but the wire.  The
    heap of sessions, and with it the host and the wait policy of the
    session, the files and the random source are after the call what they
    were before it; every event the call adds to the trace belongs to the
    exchange with the remote side.  A later invocation therefore starts
    from the same local state as this one. *)
Theorem get_endpoint_frame env self w :
  let w' := snd (ApiUser.get_endpoint self env w) in
  heap w' = heap w
  /\ host <$> heap w' !! self = host <$> heap w !! self
  /\ wait_time <$> heap w' !! self = wait_time <$> heap w !! self
  /\ files w' = files w
  /\ draws w' = draws w
  /\ exists io,
       trace w' = trace w ++ io /\ forallb is_network_io io = true.
Proof.
  intros w'. subst w'.
  destruct (heap w !! self) as [u|] eqn:Hu.
  - rewrite (get_endpoint_run env self w u Hu).
    cbn [snd after_task log heap files draws]. rewrite Hu.
    repeat split; auto.
    eexists. split; [apply after_task_trace | reflexivity].
  - rewrite (get_endpoint_dangling env self w Hu). cbn [snd]. rewrite Hu.
    repeat split; auto.
    exists []. split; [now rewrite app_nil_r | reflexivity].
Qed.

(** C7: the request [get_endpoint] emits is a GET with no body, no query
    parameters and no header added to the engine's own.  Its target is the
    base URL of the session's client followed by "/infrastructure-info",
    a path without a query string, so the target has a query string only
    if the base URL brings one. *)
Theorem get_endpoint_bare_request env self w u :
  heap w !! self = Some u ->
  exists r,
    requests_of (trace (snd (ApiUser.get_endpoint self env w)))
    = requests_of (trace w) ++ [r]
    /\ method r = GET
    /\ data r = None
    /\ params r = []
    /\ headers r = []
    /\ url r = (base_url (client u) ++ "/infrastructure-info")%string
    /\ query_of "/infrastructure-info" = None
    /\ (query_of (base_url (client u)) = None -> query_of (url r) = None).
Proof.
  intros Hu. rewrite (get_endpoint_run env self w u Hu).
  exists (request_to (base_url (client u))).
  cbn [snd]. rewrite after_task_requests.
  repeat split; auto.
  intros Hq. cbn [request_to url]. now rewrite (query_of_app _ _ Hq).
Qed.

Lemma get_endpoint_bare_request_witness :
  heap (Scenario.world None) !! 7%nat = Some Scenario.default_session
  /\ exists r,
       requests_of (trace (snd (ApiUser.get_endpoint 7%nat
                                  Scenario.env_flaky (Scenario.world None))))
       = requests_of (trace (Scenario.world None)) ++ [r]
       /\ method r = GET
       /\ data r = None
       /\ params r = []
       /\ headers r = []
       /\ url r
          = "https://xen-global-system-895330382127.europe-west1.run.app/infrastructure-info"
       /\ query_of "/infrastructure-info" = None
       /\ (query_of (base_url (client Scenario.default_session)) = None ->
           query_of (url r) = None).
Proof.
  split; [reflexivity|].
  exact (get_endpoint_bare_request Scenario.env_flaky 7%nat
           (Scenario.world None) Scenario.default_session eq_refl).
Defined.

(** C8: with the host configured to "https://example.test", one task cycle
    of a session adds to the trace exactly one request, a GET to
    "https://example.test/infrastructure-info", then the record of its
    outcome and of a failure that escaped the task, then one pause [d]
    with [1 <= d <= 5]; the cycle ends normally, and whatever the session
    does in further cycles starts from the world after that pause. *)
Theorem example_test_cycle env self w n :
  heap w !! self = new_user ApiUser.cls (Some "https://example.test") ->
  let get := {| method := GET;
                url := "https://example.test/infrastructure-info";
                params := []; data := None; headers := [] |} in
  exists o d w',
    cycle ApiUser.cls self env w = (Ok tt, w')
    /\ trace w'
       = trace w ++ [Sent get; Reported o]
         ++ match fst (ApiUser.get_endpoint self env w) with
            | Ok _ => []
            | Exc e => [UserError e]
            end
         ++ [Slept d]
    /\ requests_of (trace w') = requests_of (trace w) ++ [get]
    /\ pauses_of (trace w') = pauses_of (trace w) ++ [d]
    /\ (1 <= d <= 5)%Q
    /\ run ApiUser.cls self (S n) env w = run ApiUser.cls self n env w'.
Proof.
  intros Hu get.
  set (h := "https://example.test") in *.
  exists (outcome_at env h w), (delay_of (unit_draw env (draws w))),
    (after_cycle env h w).
  pose proof (cycle_run env self w (Some h) Hu) as Hc. cbn [default] in Hc.
  split; [exact Hc|].
  split.
  { rewrite after_cycle_trace. rewrite new_user_cls in Hu.
    rewrite (get_endpoint_run env self w _ Hu). reflexivity. }
  split; [apply after_cycle_requests|].
  split; [apply after_cycle_pauses|].
  split.
  { destruct (unit_draw_range env (draws w)). now apply delay_of_range. }
  cbn [run]. now rewrite (bind_ok env _ _ w tt _ Hc).
Qed.

Lemma example_test_cycle_witness :
  heap (Scenario.world Scenario.example_test) !! 7%nat
  = new_user ApiUser.cls Scenario.example_test
  /\ exists o d w',
       cycle ApiUser.cls 7%nat Scenario.env_flaky
         (Scenario.world Scenario.example_test)
       = (Ok tt, w')
       /\ trace w'
          = trace (Scenario.world Scenario.example_test)
            ++ [Sent {| method := GET;
                        url := "https://example.test/infrastructure-info";
                        params := []; data := None; headers := [] |};
                Reported o]
            ++ match fst (ApiUser.get_endpoint 7%nat Scenario.env_flaky
                            (Scenario.world Scenario.example_test)) with
               | Ok _ => []
               | Exc e => [UserError e]
               end
            ++ [Slept d]
       /\ requests_of (trace w')
          = requests_of (trace (Scenario.world Scenario.example_test))
            ++ [ {| method := GET;
                    url := "https://example.test/infrastructure-info";
                    params := []; data := None; headers := [] |} ]
       /\ pauses_of (trace w')
          = pauses_of (trace (Scenario.world Scenario.example_test)) ++ [d]
       /\ (1 <= d <= 5)%Q
       /\ run ApiUser.cls 7%nat 3 Scenario.env_flaky
            (Scenario.world Scenario.example_test)
          = run ApiUser.cls 7%nat 2 Scenario.env_flaky w'.
Proof.
  split; [reflexivity|].
  exact (example_test_cycle Scenario.env_flaky 7%nat
           (Scenario.world Scenario.example_test) 2 eq_refl).
Defined.

(** C9: [get_endpoint] hands nothing back and keeps nothing.  Take any two
    remote sides that answer the call, with responses as different as one
    likes: both calls return the unit value, and both leave the sessions,
    the files and the random source exactly as they were before the call,
    so that nothing of the response is left in the component. *)
Theorem get_endpoint_keeps_nothing env1 env2 self w u r1 r2 :
  heap w !! self = Some u ->
  outcome_at env1 (base_url (client u)) w = Responded r1 ->
  outcome_at env2 (base_url (client u)) w = Responded r2 ->
  let done1 := ApiUser.get_endpoint self env1 w in
  let done2 := ApiUser.get_endpoint self env2 w in
  fst done1 = Ok tt /\ fst done2 = Ok tt
  /\ heap (snd done1) = heap w /\ heap (snd done2) = heap w
  /\ files (snd done1) = files w /\ files (snd done2) = files w
  /\ draws (snd done1) = draws w /\ draws (snd done2) = draws w.
Proof.
  intros Hu H1 H2 done1 done2. subst done1 done2.
  rewrite (get_endpoint_run env1 self w u Hu),
    (get_endpoint_run env2 self w u Hu).
  unfold ending. rewrite H1, H2. repeat split.
Qed.

Lemma get_endpoint_keeps_nothing_witness :
  (heap (Scenario.busy_world None) !! 2%nat = Some Scenario.default_session
   /\ outcome_at (Scenario.env_steady 200 "ok")
        (base_url (client Scenario.default_session)) (Scenario.busy_world None)
      = Responded {| status_code := 200; text := "ok" |}
   /\ outcome_at (Scenario.env_steady 500 "internal error")
        (base_url (client Scenario.default_session)) (Scenario.busy_world None)
      = Responded {| status_code := 500; text := "internal error" |})
  /\ (let w := Scenario.busy_world None in
      let done1 :=
        ApiUser.get_endpoint 2%nat (Scenario.env_steady 200 "ok") w in
      let done2 :=
        ApiUser.get_endpoint 2%nat
          (Scenario.env_steady 500 "internal error") w in
      fst done1 = Ok tt /\ fst done2 = Ok tt
      /\ heap (snd done1) = heap w /\ heap (snd done2) = heap w
      /\ files (snd done1) = files w /\ files (snd done2) = files w
      /\ draws (snd done1) = draws w /\ draws (snd done2) = draws w).
Proof.
  split; [repeat split; reflexivity|].
  exact (get_endpoint_keeps_nothing
           (Scenario.env_steady 200 "ok")
           (Scenario.env_steady 500 "internal error")
           2%nat (Scenario.busy_world None) Scenario.default_session _ _
           eq_refl eq_refl eq_refl).
Defined.

(** C10: the requests of a run are fixed by the configured host and the
    number of cycles.  Two runs of sessions of the class, in two worlds and
    against two environments that may answer, fail and schedule in any way,
    put the same requests on the wire: [n] copies of the one GET. *)
Theorem requests_response_independent env1 env2 cfg self1 self2 w1 w2 n :
  heap w1 !! self1 = new_user ApiUser.cls cfg ->
  heap w2 !! self2 = new_user ApiUser.cls cfg ->
  exists rs,
    requests_of (trace (snd (run ApiUser.cls self1 n env1 w1)))
    = requests_of (trace w1) ++ rs
    /\ requests_of (trace (snd (run ApiUser.cls self2 n env2 w2)))
       = requests_of (trace w2) ++ rs
    /\ rs = repeat
              {| method := GET;
                 url := default ApiUser.host cfg ++ "/infrastructure-info";
                 params := []; data := None; headers := [] |}
              n.
Proof.
  intros H1 H2.
  exists (repeat (request_to (default ApiUser.host cfg)) n).
  rewrite (run_run env1 self1 cfg n w1 H1), (run_run env2 self2 cfg n w2 H2).
  cbn [snd]. rewrite !after_cycles_requests. repeat split.
Qed.

Lemma requests_response_independent_witness :
  (heap (Scenario.world Scenario.example_test) !! 7%nat
   = new_user ApiUser.cls Scenario.example_test
   /\ heap (Scenario.busy_world Scenario.example_test) !! 2%nat
      = new_user ApiUser.cls Scenario.example_test)
  /\ exists rs,
       requests_of
         (trace (snd (run ApiUser.cls 7%nat 4 Scenario.env_flaky
                        (Scenario.world Scenario.example_test))))
       = requests_of (trace (Scenario.world Scenario.example_test)) ++ rs
       /\ requests_of
            (trace (snd (run ApiUser.cls 2%nat 4 Scenario.env_quiet
                           (Scenario.busy_world Scenario.example_test))))
          = requests_of (trace (Scenario.busy_world Scenario.example_test))
            ++ rs
       /\ rs = repeat
                 {| method := GET;
                    url := "https://example.test/infrastructure-info";
                    params := []; data := None; headers := [] |}
                 4.
Proof.
  split; [split; reflexivity|].
  exact (requests_response_independent Scenario.env_flaky Scenario.env_quiet
           Scenario.example_test 7%nat 2%nat
           (Scenario.world Scenario.example_test)
           (Scenario.busy_world Scenario.example_test) 4
           eq_refl eq_refl).
Defined.

(** ** Further properties of runs *)

Import Measure.

Lemma after_cycles_add env h n m :
  forall w,
    after_cycles env h (n + m) w = after_cycles env h m (after_cycles env h n w).
Proof.
  induction n as [|n IH]; intros w; cbn [Nat.add after_cycles]; [reflexivity|].
  apply IH.
Qed.

Lemma after_cycles_draws env h n :
  forall w, draws (after_cycles env h n w) = (draws w + n)%nat.
Proof.
  induction n as [|n IH]; intros w; cbn [after_cycles]; [lia|].
  rewrite IH, after_cycle_draws. lia.
Qed.

Lemma added_app (before new : list Event) : added before (before ++ new) = new.
Proof. unfold added. apply drop_app_length. Qed.

Lemma total_app ds1 ds2 : (total (ds1 ++ ds2) == total ds1 + total ds2)%Q.
Proof.
  induction ds1 as [|d ds1 IH].
  - change (total ([] ++ ds2)) with (total ds2).
    change (total []) with 0%Q. lra.
  - change (total ((d :: ds1) ++ ds2)) with (d + total (ds1 ++ ds2))%Q.
    change (total (d :: ds1)) with (d + total ds1)%Q.
    rewrite IH. lra.
Qed.

Lemma total_range ds :
  Forall (fun d => (1 <= d <= 5)%Q) ds ->
  (inject_Z (Z.of_nat (length ds)) <= total ds
   /\ total ds <= 5 * inject_Z (Z.of_nat (length ds)))%Q.
Proof.
  induction 1 as [|d ds [Hlo Hhi] _ [IHlo IHhi]].
  - split; unfold Qle; cbn; lia.
  - change (total (d :: ds)) with (d + total ds)%Q.
    change (length (d :: ds)) with (S (length ds)).
    rewrite Nat2Z.inj_succ, <- Z.add_1_r, inject_Z_plus.
    change (inject_Z 1) with 1%Q. split; lra.
Qed.

Lemma pace_app tr1 tr2 :
  forall owed,
    pace owed (tr1 ++ tr2)
    = match pace owed tr1 with
      | Some owed' => pace owed' tr2
      | None => None
      end.
Proof.
  induction tr1 as [|ev tr1 IH]; intros owed; [reflexivity|].
  destruct ev; cbn [app pace]; try apply IH.
  destruct owed; [reflexivity | apply IH].
Qed.

Lemma pace_cycle env h w :
  pace false
    ([Sent (request_to h); Reported (outcome_at env h w)]
     ++ escaped (ending env (outcome_at env h w))
     ++ [Slept (delay_of (unit_draw env (draws w)))])
  = Some false.
Proof.
  assert (Hd : Qle_bool 1 (delay_of (unit_draw env (draws w))) = true).
  { apply Qle_bool_iff. destruct (unit_draw_range env (draws w)).
    now apply delay_of_range. }
  destruct (ending env (outcome_at env h w)); cbn; now rewrite Hd.
Qed.

Lemma after_cycles_events env h n :
  forall w,
    exists evs,
      trace (after_cycles env h n w) = trace w ++ evs
      /\ pace false evs = Some false.
Proof.
  induction n as [|n IH]; intros w; cbn [after_cycles].
  - exists []. split; [now rewrite app_nil_r | reflexivity].
  - destruct (IH (after_cycle env h w)) as (evs & Ht & Hp).
    rewrite after_cycle_trace in Ht.
    eexists. split.
    + rewrite Ht, <- app_assoc. reflexivity.
    + rewrite pace_app, pace_cycle. exact Hp.
Qed.

Lemma run_events env cfg self w n :
  heap w !! self = new_user ApiUser.cls cfg ->
  exists evs,
    trace (snd (run ApiUser.cls self n env w)) = trace w ++ evs
    /\ pace false evs = Some false
    /\ requests_of evs = repeat (request_to (default ApiUser.host cfg)) n
    /\ pauses_of evs
       = map (fun j => delay_of (unit_draw env j)) (seq (draws w) n).
Proof.
  intros Hu. rewrite (run_run env self cfg n w Hu). cbn [snd].
  set (h := default ApiUser.host cfg).
  destruct (after_cycles_events env h n w) as (evs & Ht & Hp).
  exists evs. split; [exact Ht|]. split; [exact Hp|].
  pose proof (after_cycles_requests env h n w) as Hr.
  pose proof (after_cycles_pauses env h n w) as Hs.
  rewrite Ht, requests_of_app in Hr. rewrite Ht, pauses_of_app in Hs.
  split; eapply app_inv_head; eassumption.
Qed.

Lemma turn_request_live w self cfg :
  heap w !! self = new_user ApiUser.cls cfg ->
  Fleet.turn_request w self = [request_to (default ApiUser.host cfg)].
Proof.
  intros Hu. unfold Fleet.turn_request. rewrite Hu, new_user_cls. reflexivity.
Qed.

Lemma run_turns_run env turns :
  forall w,
    Forall (fun self => exists cfg, heap w !! self = new_user ApiUser.cls cfg)
      turns ->
    exists w',
      Fleet.run_turns ApiUser.cls turns env w = (Ok tt, w')
      /\ heap w' = heap w
      /\ files w' = files w
      /\ requests_of (trace w')
         = requests_of (trace w) ++ flat_map (Fleet.turn_request w) turns.
Proof.
  induction turns as [|self rest IH]; intros w Hall.
  - exists w. cbn. now rewrite app_nil_r.
  - inversion Hall as [|? ? [cfg Hu] Hrest]; subst.
    set (w1 := after_cycle env (default ApiUser.host cfg) w).
    assert (Hh : heap w1 = heap w) by apply after_cycle_heap.
    destruct (IH w1) as (w' & Hrun & Hheap & Hfiles & Hreq).
    { eapply Forall_impl; [exact Hrest|].
      intros s [c Hc]. exists c. now rewrite Hh. }
    exists w'. cbn [Fleet.run_turns].
    rewrite (bind_ok env _ _ w tt _ (cycle_run env self w cfg Hu)).
    fold w1. split; [exact Hrun|].
    split; [now rewrite Hheap|].
    split; [rewrite Hfiles; apply after_cycle_files|].
    rewrite Hreq. unfold w1 at 1. rewrite after_cycle_requests.
    cbn [flat_map]. rewrite (turn_request_live w self cfg Hu), <- app_assoc.
    do 2 f_equal. apply flat_map_ext. intros s.
    unfold Fleet.turn_request. now rewrite Hh.
Qed.

(** The pacing measure does reject: two requests in a row, or a pause
    shorter than a second between them, and it accepts a full second. *)
Example pace_rejects :
  pace false [Sent (request_to "h"); Reported (Failed Timeout);
              Sent (request_to "h")] = None
  /\ pace false [Sent (request_to "h"); Slept (1 # 2);
                 Sent (request_to "h")] = None
  /\ pace false [Sent (request_to "h"); Slept 1;
                 Sent (request_to "h")] = Some true.
Proof. repeat split. Qed.

(** X1: a run of a session of the class never aborts, whatever the remote
    side answers or fails with and however the client surfaces a failure.
    It leaves the session as the engine created it and uses one draw per
    cycle, so a run of [n + m] cycles is a run of [n] cycles followed by a
    run of [m] cycles from the world the first one left. *)
Theorem run_resumes env cfg self w n m :
  heap w !! self = new_user ApiUser.cls cfg ->
  let first := run ApiUser.cls self n env w in
  fst first = Ok tt
  /\ heap (snd first) !! self = new_user ApiUser.cls cfg
  /\ draws (snd first) = (draws w + n)%nat
  /\ run ApiUser.cls self (n + m) env w
     = run ApiUser.cls self m env (snd first).
Proof.
  intros Hu first. subst first.
  rewrite (run_run env self cfg n w Hu). cbn [fst snd].
  assert (Hmid : heap (after_cycles env (default ApiUser.host cfg) n w) !! self
                 = new_user ApiUser.cls cfg)
    by now rewrite after_cycles_heap.
  split; [reflexivity|]. split; [exact Hmid|].
  split; [apply after_cycles_draws|].
  rewrite (run_run env self cfg (n + m) w Hu),
    (run_run env self cfg m _ Hmid).
  now rewrite after_cycles_add.
Qed.

Lemma run_resumes_witness :
  heap (Scenario.busy_world Scenario.unreachable_test) !! 7%nat
  = new_user ApiUser.cls Scenario.unreachable_test
  /\ (let first :=
        run ApiUser.cls 7%nat 2 Scenario.env_down
          (Scenario.busy_world Scenario.unreachable_test) in
      fst first = Ok tt
      /\ heap (snd first) !! 7%nat
         = new_user ApiUser.cls Scenario.unreachable_test
      /\ draws (snd first)
         = (draws (Scenario.busy_world Scenario.unreachable_test) + 2)%nat
      /\ run ApiUser.cls 7%nat (2 + 3) Scenario.env_down
           (Scenario.busy_world Scenario.unreachable_test)
         = run ApiUser.cls 7%nat 3 Scenario.env_down (snd first)).
Proof.
  split; [reflexivity|].
  exact (run_resumes Scenario.env_down Scenario.unreachable_test 7%nat
           (Scenario.busy_world Scenario.unreachable_test) 2 3 eq_refl).
Defined.

(** X2: a run of [n] cycles adds exactly [n] requests and [n] pauses to
    the trace.  The task takes nothing from the random source, so pause
    number [j] of the run is made of draw number [draws w + j], and the
    time the session spends waiting is at least [n] and at most [5 n]
    seconds. *)
Theorem run_waiting_time env cfg self w n :
  heap w !! self = new_user ApiUser.cls cfg ->
  let new := added (trace w) (trace (snd (run ApiUser.cls self n env w))) in
  length (requests_of new) = n
  /\ length (pauses_of new) = n
  /\ pauses_of new
     = map (fun j => (1 + unit_draw env j * 4)%Q) (seq (draws w) n)
  /\ (inject_Z (Z.of_nat n) <= total (pauses_of new))%Q
  /\ (total (pauses_of new) <= 5 * inject_Z (Z.of_nat n))%Q.
Proof.
  intros Hu new. subst new.
  destruct (run_events env cfg self w n Hu) as (evs & Ht & _ & Hr & Hs).
  rewrite Ht, added_app, Hr, Hs.
  rewrite repeat_length, length_map, length_seq.
  split; [reflexivity|]. split; [reflexivity|]. split; [reflexivity|].
  assert (Hall : Forall (fun d => (1 <= d <= 5)%Q)
                   (map (fun j => delay_of (unit_draw env j))
                      (seq (draws w) n))).
  { apply List.Forall_forall. intros d Hd.
    apply in_map_iff in Hd as (j & <- & _).
    destruct (unit_draw_range env j). now apply delay_of_range. }
  pose proof (total_range _ Hall) as Hb.
  rewrite length_map, length_seq in Hb. exact Hb.
Qed.

Lemma run_waiting_time_witness :
  heap (Scenario.world Scenario.example_test) !! 7%nat
  = new_user ApiUser.cls Scenario.example_test
  /\ (let new :=
        added (trace (Scenario.world Scenario.example_test))
          (trace (snd (run ApiUser.cls 7%nat 3 Scenario.env_flaky
                         (Scenario.world Scenario.example_test)))) in
      length (requests_of new) = 3%nat
      /\ length (pauses_of new) = 3%nat
      /\ pauses_of new
         = map (fun j => (1 + unit_draw Scenario.env_flaky j * 4)%Q)
             (seq (draws (Scenario.world Scenario.example_test)) 3)
      /\ (inject_Z (Z.of_nat 3) <= total (pauses_of new))%Q
      /\ (total (pauses_of new) <= 5 * inject_Z (Z.of_nat 3))%Q).
Proof.
  split; [reflexivity|].
  exact (run_waiting_time Scenario.env_flaky Scenario.example_test 7%nat
           (Scenario.world Scenario.example_test) 3 eq_refl).
Defined.

(** X3: in what a run adds to the trace no request goes out while a pause
    is owed: after each request the session pauses for at least one second
    before its next request, and the run ends on such a pause. *)
Theorem run_paced env cfg self w n :
  heap w !! self = new_user ApiUser.cls cfg ->
  pace false (added (trace w) (trace (snd (run ApiUser.cls self n env w))))
  = Some false.
Proof.
  intros Hu.
  destruct (run_events env cfg self w n Hu) as (evs & Ht & Hp & _).
  now rewrite Ht, added_app.
Qed.

Lemma run_paced_witness :
  heap (Scenario.busy_world None) !! 2%nat = new_user ApiUser.cls None
  /\ pace false
       (added (trace (Scenario.busy_world None))
          (trace (snd (run ApiUser.cls 2%nat 4 Scenario.env_flaky
                         (Scenario.busy_world None)))))
     = Some false.
Proof.
  split; [reflexivity|].
  exact (run_paced Scenario.env_flaky None 2%nat (Scenario.busy_world None) 4
           eq_refl).
Defined.

(** X4: sessions of the class that share a process do not disturb one
    another.  In whatever order they take their cycles, every cycle ends
    normally, the sessions and the files are left as they were, and each
    turn puts on the wire one GET to the host of the session whose turn it
    is. *)
Theorem turns_do_not_interfere env turns w :
  Forall (fun self => exists cfg, heap w !! self = new_user ApiUser.cls cfg)
    turns ->
  let done := Fleet.run_turns ApiUser.cls turns env w in
  fst done = Ok tt
  /\ heap (snd done) = heap w
  /\ files (snd done) = files w
  /\ requests_of (trace (snd done))
     = requests_of (trace w) ++ flat_map (Fleet.turn_request w) turns.
Proof.
  intros Hall done. subst done.
  destruct (run_turns_run env turns w Hall) as (w' & -> & Hh & Hf & Hr).
  cbn [fst snd]. auto.
Qed.

Lemma turns_do_not_interfere_witness :
  Forall (fun self =>
            exists cfg, heap Fleet.two_hosts !! self = new_user ApiUser.cls cfg)
    [1%nat; 4%nat; 4%nat; 1%nat]
  /\ (let done :=
        Fleet.run_turns ApiUser.cls [1%nat; 4%nat; 4%nat; 1%nat]
          Scenario.env_flaky Fleet.two_hosts in
      fst done = Ok tt
      /\ heap (snd done) = heap Fleet.two_hosts
      /\ files (snd done) = files Fleet.two_hosts
      /\ requests_of (trace (snd done))
         = requests_of (trace Fleet.two_hosts)
           ++ flat_map (Fleet.turn_request Fleet.two_hosts)
                [1%nat; 4%nat; 4%nat; 1%nat]).
Proof.
  assert (H : Forall (fun self =>
                        exists cfg, heap Fleet.two_hosts !! self
                                    = new_user ApiUser.cls cfg)
                [1%nat; 4%nat; 4%nat; 1%nat]).
  { repeat (constructor;
            [first [ exists None; reflexivity
                   | exists Scenario.example_test; reflexivity ] |]).
    constructor. }
  split; [exact H|].
  exact (turns_do_not_interfere Scenario.env_flaky _ Fleet.two_hosts H).
Defined.

Example two_hosts_requests :
  map url
    (requests_of
       (trace (snd (Fleet.run_turns ApiUser.cls [1%nat; 4%nat; 4%nat; 1%nat]
                      Scenario.env_flaky Fleet.two_hosts))))
  = [ "https://xen-global-system-895330382127.europe-west1.run.app/infrastructure-info";
      "https://example.test/infrastructure-info";
      "https://example.test/infrastructure-info";
      "https://xen-global-system-895330382127.europe-west1.run.app/infrastructure-info" ].
Proof. reflexivity. Qed.

(** ** The law of the waits *)

Import Chance.

Section Counting.
Variable N : nat.

Lemma sum_below_ext f g :
  (forall k, (0 <= k < Z.of_nat N)%Z -> f k = g k) ->
  sum_below N f = sum_below N g.
Proof.
  induction N as [|M IH]; intros H; [reflexivity|].
  cbn [sum_below]. rewrite IH, (H (Z.of_nat M)); [reflexivity | lia |].
  intros k Hk. apply H. lia.
Qed.

Lemma sum_below_scale f c :
  sum_below N (fun k => (f k * c)%nat) = (sum_below N f * c)%nat.
Proof.
  induction N as [|M IH]; [reflexivity|].
  cbn [sum_below]. rewrite IH. lia.
Qed.

Lemma sum_below_zero : sum_below N (fun _ => 0%nat) = 0%nat.
Proof. induction N as [|M IH]; [reflexivity|]. cbn [sum_below]. now rewrite IH. Qed.

Lemma count_vectors_ext n :
  forall E E',
    (forall ks, length ks = n ->
                Forall (fun k => (0 <= k < Z.of_nat N)%Z) ks ->
                E ks = E' ks) ->
    count_vectors N n E = count_vectors N n E'.
Proof.
  induction n as [|n IH]; intros E E' H; cbn [count_vectors].
  - now rewrite (H [] eq_refl ltac:(constructor)).
  - apply sum_below_ext. intros k Hk. apply IH.
    intros ks Hl Hr. apply H; [cbn; now rewrite Hl | now constructor].
Qed.

Lemma count_vectors_never n : count_vectors N n (fun _ => false) = 0%nat.
Proof.
  induction n as [|n IH]; [reflexivity|].
  cbn [count_vectors]. rewrite <- sum_below_zero.
  apply sum_below_ext. intros k _. exact IH.
Qed.

Lemma count_vectors_each Ps :
  count_vectors N (length Ps) (each Ps)
  = fold_right Nat.mul 1%nat (map (count_below N) Ps).
Proof.
  induction Ps as [|P Ps IH]; [reflexivity|].
  cbn [length count_vectors map fold_right].
  rewrite <- IH. unfold count_below.
  rewrite <- sum_below_scale. apply sum_below_ext. intros k _.
  cbn [each]. destruct (P k); cbn [andb].
  - now rewrite Nat.mul_1_l.
  - now rewrite count_vectors_never.
Qed.

Lemma count_below_le t :
  count_below N (fun k => (k <=? t)%Z)
  = Z.to_nat (Z.min (Z.of_nat N) (t + 1)).
Proof.
  unfold count_below.
  induction N as [|M IH]; [cbn; lia|].
  cbn [sum_below]. rewrite IH.
  destruct (Z.leb_spec (Z.of_nat M) t); lia.
Qed.

End Counting.

Lemma count_below_ext N P P' :
  (forall k, (0 <= k < Z.of_nat N)%Z -> P k = P' k) ->
  count_below N P = count_below N P'.
Proof.
  intros H. unfold count_below. apply sum_below_ext.
  intros k Hk. now rewrite (H k Hk).
Qed.

Example counting_small :
  count_below 8 (fun k => (k <=? 2)%Z) = 3%nat
  /\ count_vectors 4 2 (fun _ => true) = 16%nat
  /\ count_vectors 4 2 (each [fun k => (k <=? 0)%Z; fun k => (2 <=? k)%Z])
     = 2%nat
  /\ count_vectors 3 2
       (fun ks => match ks with
                  | [a; b] => (a =? b)%Z
                  | _ => false
                  end) = 3%nat.
Proof. repeat split. Qed.

(** *** The threshold of a delay, in raw values *)

(** The largest raw value whose delay stays within [x], at resolution [r]. *)
Lemma delay_threshold (r : positive) (x : Q) (k : Z) :
  Qle_bool (delay_of (k # r)) x
  = (k <=? (Qnum x - Zpos (Qden x)) * Zpos r / (4 * Zpos (Qden x)))%Z.
Proof.
  destruct x as [p q]. cbn [Qnum Qden].
  assert (Hb : (0 < 4 * Zpos q)%Z) by lia.
  apply eq_true_iff_eq. rewrite Qle_bool_iff, Z.leb_le.
  unfold delay_of, Qle, Qplus, Qmult. cbn [Qnum Qden].
  rewrite !Pos2Z.inj_mul. split; intros H.
  - apply Z.div_le_lower_bound; [exact Hb | nia].
  - pose proof (Z.mul_div_le ((p - Zpos q) * Zpos r) (4 * Zpos q) Hb).
    nia.
Qed.

Lemma count_delays (r : positive) (x : Q) :
  Z.of_nat (count_below (Pos.to_nat r)
              (fun k => Qle_bool (delay_of (k # r)) x))
  = Z.max 0
      (Z.min (Zpos r)
         ((Qnum x - Zpos (Qden x)) * Zpos r / (4 * Zpos (Qden x)) + 1)).
Proof.
  rewrite (count_below_ext _ _
             (fun k => (k <=? (Qnum x - Zpos (Qden x)) * Zpos r
                               / (4 * Zpos (Qden x)))%Z)).
  2:{ intros k _. apply delay_threshold. }
  rewrite count_below_le, positive_nat_Z. lia.
Qed.

Lemma count_delays_bounds (r : positive) (x : Q) :
  (1 <= x)%Q -> (x <= 5)%Q ->
  let c := inject_Z (Z.of_nat (count_below (Pos.to_nat r)
                                 (fun k => Qle_bool (delay_of (k # r)) x))) in
  ((x - 1) / 4 <= c / inject_Z (Zpos r)
   /\ c / inject_Z (Zpos r) <= (x - 1) / 4 + (1 # r))%Q.
Proof.
  intros H1 H5 c. subst c. rewrite count_delays.
  destruct x as [p q]. cbn [Qnum Qden].
  unfold Qle in H1, H5. cbn [Qnum Qden] in H1, H5.
  set (a := ((p - Zpos q) * Zpos r)%Z).
  set (b := (4 * Zpos q)%Z).
  assert (Hb : (0 < b)%Z) by (subst b; lia).
  pose proof (Z.mul_div_le a b Hb) as Hlo.
  pose proof (Z.mul_succ_div_gt a b Hb) as Hhi.
  assert (Ha : (0 <= a)%Z) by (subst a; nia).
  assert (Ht : (0 <= a / b)%Z) by (apply Z.div_pos; lia).
  assert (Har : (a <= b * Zpos r)%Z) by (subst a b; nia).
  set (c := Z.max 0 (Z.min (Zpos r) (a / b + 1))).
  assert (F1 : (a <= b * c)%Z) by (subst c; nia).
  assert (F2 : (b * (c - 1) <= a)%Z) by (subst c; nia).
  clearbody c. subst a b.
  unfold Qle, Qdiv, Qminus, Qplus, Qmult, Qinv, Qopp, inject_Z.
  cbn [Qnum Qden]. rewrite !Pos2Z.inj_mul. split; nia.
Qed.

Lemma count_delays_low (r : positive) (x : Q) :
  (x < 1)%Q ->
  count_below (Pos.to_nat r) (fun k => Qle_bool (delay_of (k # r)) x) = 0%nat.
Proof.
  intros Hx. apply Nat2Z.inj. rewrite count_delays.
  destruct x as [p q]. unfold Qlt in Hx. cbn [Qnum Qden] in *.
  assert (Hb : (0 < 4 * Zpos q)%Z) by lia.
  assert (((p - Zpos q) * Zpos r / (4 * Zpos q) < 0)%Z)
    by (apply Z.div_lt_upper_bound; [exact Hb | nia]).
  lia.
Qed.

Lemma count_delays_high (r : positive) (x : Q) :
  (5 <= x)%Q ->
  count_below (Pos.to_nat r) (fun k => Qle_bool (delay_of (k # r)) x)
  = Pos.to_nat r.
Proof.
  intros Hx. apply Nat2Z.inj. rewrite count_delays, positive_nat_Z.
  destruct x as [p q]. unfold Qle in Hx. cbn [Qnum Qden] in *.
  assert (Hb : (0 < 4 * Zpos q)%Z) by lia.
  assert ((Zpos r <= (p - Zpos q) * Zpos r / (4 * Zpos q))%Z)
    by (apply Z.div_le_lower_bound; [exact Hb | nia]).
  lia.
Qed.

(** *** Shares of vectors and shares of values *)

Lemma share_product (R : Q) (cs : list nat) :
  ~ (R == 0)%Q ->
  (inject_Z (Z.of_nat (fold_right Nat.mul 1%nat cs)) / R ^ Z.of_nat (length cs)
   == product (map (fun c => inject_Z (Z.of_nat c) / R ^ 1) cs))%Q.
Proof.
  intros HR. induction cs as [|c cs IH].
  - reflexivity.
  - cbn [fold_right length map product].
    fold (product (map (fun c => inject_Z (Z.of_nat c) / R ^ 1) cs))%Q.
    rewrite <- IH.
    rewrite Nat2Z.inj_mul, inject_Z_mult, Nat2Z.inj_succ, <- Z.add_1_l.
    rewrite Qpower_plus by exact HR.
    assert (Hp : ~ (R ^ Z.of_nat (length cs) == 0)%Q)
      by (apply Qpower_not_0; exact HR).
    change (R ^ 1)%Q with R. field. split; assumption.
Qed.

(** *** Runs as functions of the raw values they draw *)

Lemma redraw_entropy env first ks i k :
  nth_error ks i = Some k ->
  entropy (redraw env first ks) (first + i) = k.
Proof.
  intros Hk. cbn [redraw entropy].
  assert (Hle : (first <=? first + i)%nat = true) by (apply Nat.leb_le; lia).
  rewrite Hle. replace (first + i - first)%nat with i by lia.
  now apply nth_error_nth.
Qed.

Lemma unit_draw_redraw env first ks i k :
  nth_error ks i = Some k ->
  (0 <= k < Zpos resolution)%Z ->
  unit_draw (redraw env first ks) (first + i)%nat = Qmake k resolution.
Proof.
  intros Hk Hr. unfold unit_draw.
  rewrite (redraw_entropy env first ks i k Hk).
  now rewrite Z.mod_small.
Qed.

Lemma map_seq_nth {A B} (f : nat -> B) (g : A -> B) (ks : list A) :
  forall first,
    (forall i k, nth_error ks i = Some k -> f (first + i)%nat = g k) ->
    map f (seq first (length ks)) = map g ks.
Proof.
  induction ks as [|k ks IH]; intros first H; [reflexivity|].
  cbn [length seq map]. f_equal.
  - rewrite <- (H 0%nat k eq_refl). f_equal. lia.
  - apply IH. intros i k' Hk'.
    rewrite <- (H (S i) k' Hk'). f_equal. lia.
Qed.

Lemma all_le_map (g : Z -> Q) :
  forall ks xs,
    all_le (map g ks) xs
    = each (map (fun x k => Qle_bool (g k) x) xs) ks.
Proof.
  induction ks as [|k ks IH]; intros [|x xs]; cbn [map all_le each];
    try reflexivity.
  now rewrite IH.
Qed.

Lemma run_waits_redrawn env cfg self w ks :
  heap w !! self = new_user ApiUser.cls cfg ->
  Forall (fun k => (0 <= k < Zpos resolution)%Z) ks ->
  pauses_of
    (added (trace w)
       (trace (snd (run ApiUser.cls self (length ks)
                      (redraw env (draws w) ks) w))))
  = map (fun k => delay_of (Qmake k resolution)) ks.
Proof.
  intros Hu Hr.
  destruct (run_events (redraw env (draws w) ks) cfg self w (length ks) Hu)
    as (evs & Ht & _ & _ & Hs).
  rewrite Ht, added_app, Hs.
  apply (map_seq_nth
           (fun j => delay_of (unit_draw (redraw env (draws w) ks) j))
           (fun k => delay_of (Qmake k resolution))).
  intros i k Hk. f_equal.
  apply unit_draw_redraw; [exact Hk|].
  rewrite List.Forall_forall in Hr. apply Hr.
  eapply nth_error_In; exact Hk.
Qed.

Lemma run_waits_range env cfg self w n :
  heap w !! self = new_user ApiUser.cls cfg ->
  let waits :=
    pauses_of (added (trace w) (trace (snd (run ApiUser.cls self n env w)))) in
  length waits = n /\ Forall (fun d => (1 <= d <= 5)%Q) waits.
Proof.
  intros Hu waits. subst waits.
  destruct (run_events env cfg self w n Hu) as (evs & Ht & _ & _ & Hs).
  rewrite Ht, added_app, Hs, length_map, length_seq.
  split; [reflexivity|].
  apply List.Forall_forall. intros d Hd.
  apply in_map_iff in Hd as (j & <- & _).
  destruct (unit_draw_range env j). now apply delay_of_range.
Qed.

Lemma sample_redrawn env w k :
  (0 <= k < Zpos resolution)%Z ->
  fst (sample ApiUser.wait_time (redraw env (draws w) [k]) w)
  = Ok (delay_of (Qmake k resolution)).
Proof.
  intros Hr. rewrite sample_run. cbn [fst]. do 2 f_equal.
  rewrite <- (Nat.add_0_r (draws w)) at 2.
  now apply unit_draw_redraw.
Qed.

Lemma resolution_share_nonzero (r : positive) : ~ (inject_Z (Zpos r) == 0)%Q.
Proof. unfold Qeq. cbn [Qnum Qden inject_Z]. lia. Qed.

Lemma count_vectors_one N E :
  count_vectors N 1 E = count_below N (fun k => E [k]).
Proof. reflexivity. Qed.

Lemma chance_within env w x :
  chance 1
    (fun ks =>
       match fst (sample ApiUser.wait_time (redraw env (draws w) ks) w) with
       | Ok d => Qle_bool d x
       | Exc _ => false
       end)
  = (inject_Z (Z.of_nat
                 (count_below (Pos.to_nat resolution)
                    (fun k => Qle_bool (delay_of (Qmake k resolution)) x)))
     / inject_Z (Zpos resolution) ^ 1)%Q.
Proof.
  unfold chance. rewrite count_vectors_one.
  pose proof (positive_nat_Z resolution) as HN.
  set (N := Pos.to_nat resolution) in *. clearbody N.
  rewrite (count_below_ext N _
             (fun k => Qle_bool (delay_of (Qmake k resolution)) x)).
  - reflexivity.
  - intros k Hk. rewrite HN in Hk.
    now rewrite (sample_redrawn env w k Hk).
Qed.

Lemma count_below_eq N k :
  (0 <= k < Z.of_nat N)%Z ->
  count_below N (fun j => (j =? k)%Z) = 1%nat.
Proof.
  unfold count_below. induction N as [|M IH]; intros Hk; [lia|].
  cbn [sum_below]. destruct (Z.eqb_spec (Z.of_nat M) k) as [Heq|Hne].
  - rewrite (sum_below_ext M _ (fun _ => 0%nat)).
    + now rewrite sum_below_zero.
    + intros j Hj. destruct (Z.eqb_spec j k); [lia | reflexivity].
  - rewrite IH; lia.
Qed.

Lemma delay_hits (r : positive) (j k : Z) :
  Qeq_bool (delay_of (j # r)) (delay_of (k # r)) = (j =? k)%Z.
Proof.
  apply eq_true_iff_eq. rewrite Qeq_bool_iff, Z.eqb_eq.
  unfold delay_of, Qeq, Qplus, Qmult. cbn [Qnum Qden].
  rewrite !Pos2Z.inj_mul. split; intros H; [nia | subst; reflexivity].
Qed.

Lemma chance_hits env w k :
  (0 <= k < Zpos resolution)%Z ->
  (chance 1
     (fun ks =>
        match fst (sample ApiUser.wait_time (redraw env (draws w) ks) w) with
        | Ok d => Qeq_bool d (delay_of (Qmake k resolution))
        | Exc _ => false
        end)
   == 1 # resolution)%Q.
Proof.
  intros Hk. unfold chance. rewrite count_vectors_one.
  pose proof (positive_nat_Z resolution) as HN.
  set (N := Pos.to_nat resolution) in *. clearbody N.
  rewrite (count_below_ext N _ (fun j => (j =? k)%Z)).
  - rewrite count_below_eq by lia. reflexivity.
  - intros j Hj. rewrite HN in Hj.
    rewrite (sample_redrawn env w j Hj). apply delay_hits.
Qed.

Lemma chance_run_waits env cfg self w xs :
  heap w !! self = new_user ApiUser.cls cfg ->
  (chance (length xs)
     (fun ks =>
        all_le
          (pauses_of
             (added (trace w)
                (trace (snd (run ApiUser.cls self (length xs)
                               (redraw env (draws w) ks) w)))))
          xs)
   == product
        (map (fun x =>
                inject_Z (Z.of_nat
                            (count_below (Pos.to_nat resolution)
                               (fun k =>
                                  Qle_bool (delay_of (Qmake k resolution)) x)))
                / inject_Z (Zpos resolution) ^ 1)
           xs))%Q.
Proof.
  intros Hu. unfold chance.
  pose proof (positive_nat_Z resolution) as HN.
  set (N := Pos.to_nat resolution) in *. clearbody N.
  set (Ps := map (fun x k => Qle_bool (delay_of (Qmake k resolution)) x) xs).
  assert (Hlen : length Ps = length xs) by (subst Ps; apply length_map).
  rewrite (count_vectors_ext N (length xs) _ (each Ps)).
  2:{ intros ks Hl Hr. rewrite <- Hl.
      rewrite (run_waits_redrawn env cfg self w ks Hu).
      - subst Ps. apply all_le_map.
      - eapply Forall_impl; [exact Hr|]. cbn beta. intros k Hk.
        now rewrite HN in Hk. }
  rewrite <- Hlen, count_vectors_each.
  rewrite <- (length_map (count_below N) Ps).
  rewrite (share_product _ _ (resolution_share_nonzero resolution)).
  subst Ps. rewrite !map_map. reflexivity.
Qed.

(** C2: the waits of the class lie between 1 and 5 seconds, are uniform
    over that interval and are independent of one another.

    Whatever the random source yields, a sample of the policy and every
    pause of a run is some [d] with [1 <= d <= 5].  With every vector of
    raw values of the source as likely as any other, one wait takes each
    of the [2^53] evenly spaced values [1 + 4 k / 2^53] with the same
    chance [1 / 2^53]; so the chance that it stays within [x] is the
    uniform one, [(x - 1) / 4], up to that spacing, and is 0 below 1 and
    1 from 5 on.  The chance that the [n] pauses of a run each stay
    within a threshold of their own is the product of the [n] chances of
    one wait. *)
Theorem wait_time_law env cfg self w n xs :
  heap w !! self = new_user ApiUser.cls cfg ->
  length xs = n ->
  let waits ks :=
    pauses_of
      (added (trace w)
         (trace (snd (run ApiUser.cls self n
                        (redraw env (draws w) ks) w)))) in
  let within x ks :=
    match fst (sample ApiUser.wait_time (redraw env (draws w) ks) w) with
    | Ok d => Qle_bool d x
    | Exc _ => false
    end in
  let hits v ks :=
    match fst (sample ApiUser.wait_time (redraw env (draws w) ks) w) with
    | Ok d => Qeq_bool d v
    | Exc _ => false
    end in
  (forall env' w',
     exists d, fst (sample ApiUser.wait_time env' w') = Ok d
               /\ (1 <= d <= 5)%Q)
  /\ (forall ks,
        length (waits ks) = n
        /\ Forall (fun d => (1 <= d <= 5)%Q) (waits ks))
  /\ (forall k, (0 <= k < 9007199254740992)%Z ->
        (chance 1 (hits (1 + (k # 9007199254740992) * 4))
         == 1 # 9007199254740992)%Q)
  /\ (forall x, (1 <= x)%Q -> (x <= 5)%Q ->
        (uniform_cdf x <= chance 1 (within x)
         /\ chance 1 (within x)
            <= uniform_cdf x + (1 # 9007199254740992))%Q)
  /\ (forall x, (x < 1)%Q -> (chance 1 (within x) == 0)%Q)
  /\ (forall x, (5 <= x)%Q -> (chance 1 (within x) == 1)%Q)
  /\ (chance n (fun ks => all_le (waits ks) xs)
      == product (map (fun x => chance 1 (within x)) xs))%Q.
Proof.
  intros Hu Hn waits within hits. subst waits within hits n.
  split.
  { intros env' w'. exists (delay_of (unit_draw env' (draws w'))).
    split; [now rewrite sample_run|].
    destruct (unit_draw_range env' (draws w')). now apply delay_of_range. }
  split.
  { intros ks. apply (run_waits_range _ cfg); exact Hu. }
  split.
  { intros k Hk. exact (chance_hits env w k Hk). }
  split.
  { intros x H1 H5. rewrite chance_within.
    exact (count_delays_bounds resolution x H1 H5). }
  split.
  { intros x Hx. rewrite chance_within, (count_delays_low resolution x Hx).
    reflexivity. }
  split.
  { intros x Hx. rewrite chance_within, (count_delays_high resolution x Hx).
    rewrite positive_nat_Z.
    change (inject_Z (Zpos resolution) ^ 1)%Q
      with (inject_Z (Zpos resolution)).
    apply Qmult_inv_r, resolution_share_nonzero. }
  rewrite (chance_run_waits env cfg self w xs Hu).
  erewrite map_ext; [reflexivity|].
  intros x. cbn beta. now rewrite chance_within.
Qed.

Lemma wait_time_law_witness :
  (heap (Scenario.world Scenario.example_test) !! 7%nat
   = new_user ApiUser.cls Scenario.example_test
   /\ length [2%Q; (7 # 2)%Q] = 2%nat)
  /\ (let env := Scenario.env_flaky in
      let w := Scenario.world Scenario.example_test in
      let xs := [2%Q; (7 # 2)%Q] in
      let waits ks :=
        pauses_of
          (added (trace w)
             (trace (snd (run ApiUser.cls 7%nat 2
                            (redraw env (draws w) ks) w)))) in
      let within x ks :=
        match fst (sample ApiUser.wait_time (redraw env (draws w) ks) w) with
        | Ok d => Qle_bool d x
        | Exc _ => false
        end in
      let hits v ks :=
        match fst (sample ApiUser.wait_time (redraw env (draws w) ks) w) with
        | Ok d => Qeq_bool d v
        | Exc _ => false
        end in
      (forall env' w',
         exists d, fst (sample ApiUser.wait_time env' w') = Ok d
                   /\ (1 <= d <= 5)%Q)
      /\ (forall ks,
            length (waits ks) = 2%nat
            /\ Forall (fun d => (1 <= d <= 5)%Q) (waits ks))
      /\ (forall k, (0 <= k < 9007199254740992)%Z ->
            (chance 1 (hits (1 + (k # 9007199254740992) * 4))
             == 1 # 9007199254740992)%Q)
      /\ (forall x, (1 <= x)%Q -> (x <= 5)%Q ->
            (uniform_cdf x <= chance 1 (within x)
             /\ chance 1 (within x)
                <= uniform_cdf x + (1 # 9007199254740992))%Q)
      /\ (forall x, (x < 1)%Q -> (chance 1 (within x) == 0)%Q)
      /\ (forall x, (5 <= x)%Q -> (chance 1 (within x) == 1)%Q)
      /\ (chance 2 (fun ks => all_le (waits ks) xs)
          == product (map (fun x => chance 1 (within x)) xs))%Q).
Proof.
  split; [split; reflexivity|].
  exact (wait_time_law Scenario.env_flaky Scenario.example_test 7%nat
           (Scenario.world Scenario.example_test) 2 [2%Q; (7 # 2)%Q]
           eq_refl eq_refl).
Defined.

(** At a threshold on the grid the bound is met: half of the raw values,
    and one more, give a wait of at most 3 seconds. *)
Example chance_within_three env w :
  (chance 1
     (fun ks =>
        match fst (sample ApiUser.wait_time (redraw env (draws w) ks) w) with
        | Ok d => Qle_bool d 3
        | Exc _ => false
        end)
   == (1 # 2) + (1 # 9007199254740992))%Q.
Proof. rewrite chance_within, count_delays. reflexivity. Qed.
